(** * use-await: the [useAwaitData] hook as a state machine

    A shallow embedding of [src/index.ts].  The hook keeps its state in React
    cells ([useMemo], [useRef]) that survive between renders; here they are the
    fields of one record, and every function of the source that touches them
    becomes a function from record to record.  Closures created by one
    execution of the hook body ([abort], [tick], [onfulfilled], [onrejected],
    [updateResult]) all capture the same two variables, [task] and
    [abortController]; a closure is therefore represented by that captured
    environment. *)

From stdpp Require Import gmap list.
From Stdlib Require Import ZArith.

(** ** Data *)

(** [useAwaitData.Status]. *)
Inductive Status := running | fulfilled | rejected | aborted.

(** A task is a function object; the [Map] compares keys by identity, so a
    task is represented by its identity. *)
Abbreviation AsyncTask := nat (only parsing).

(** An [AbortController] is likewise represented by its identity. *)
Abbreviation AbortController := nat (only parsing).

(** Values of type [unknown] that reach [onrejected]: the two module-level
    symbols, or anything else a task body may throw. *)
Inductive unknown := symbolInvalidate | symbolAborted | thrown (e : Z).

(** The variables captured by the closures of one execution of the hook body. *)
Record Run := { task : AsyncTask; abortController : AbortController }.

(** [useAwaitData.Result]; the [abort] property of a running result is the
    closure of the run that built the result. *)
Inductive Result :=
| Running (abort : Run)
| Fulfilled (value : Z)
| Rejected (error : unknown)
| Aborted.

Definition status (result : Result) : Status :=
  match result with
  | Running _ => running
  | Fulfilled _ => fulfilled
  | Rejected _ => rejected
  | Aborted => aborted
  end.

(** The promise returned by one call of [tick]: resolved with the [tick]
    closure of some run, or rejected with a reason. *)
Inductive TickPromise := resolve (tick : Run) | reject (reason : unknown).

(** How the promise returned by [task(scheduler)] settles. *)
Inductive Outcome := fulfils (value : Z) | rejects (error : unknown).

(** Calls with an effect outside the hook's own cells, and the two writes of
    [updateResult], in the order in which the code performs them. *)
Inductive Effect :=
| ResultSet (result : Result)          (* resultRef.current = result *)
| TasksSet (t : AsyncTask) (s : Status) (* tasks.set(t, s) *)
| TasksDelete (t : AsyncTask)          (* tasks.delete(t) *)
| ControllerAbort (c : AbortController) (* c.abort() *)
| Rerender                             (* rerender() *)
| TaskCall (r : Run).                  (* task(scheduler) *)

(** The cells of one mounted hook. *)
Record Hook := {
  tasks : gmap nat Status;
  staleTaskRef : option AsyncTask;
  staleAbortControllerRef : option AbortController;
  resultRef : Result;
  (* the controllers whose signal has [aborted === true] *)
  signals : gset nat;
  (* the closure environments created so far, oldest first *)
  runs : list Run;
  effects : list Effect
}.

(** ** Operations *)

Definition emit (e : Effect) (h : Hook) : Hook :=
  {| tasks := tasks h; staleTaskRef := staleTaskRef h;
     staleAbortControllerRef := staleAbortControllerRef h;
     resultRef := resultRef h; signals := signals h; runs := runs h;
     effects := effects h ++ [e] |}.

Definition set_tasks (m : gmap nat Status) (h : Hook) : Hook :=
  {| tasks := m; staleTaskRef := staleTaskRef h;
     staleAbortControllerRef := staleAbortControllerRef h;
     resultRef := resultRef h; signals := signals h; runs := runs h;
     effects := effects h |}.

Definition set_resultRef (result : Result) (h : Hook) : Hook :=
  {| tasks := tasks h; staleTaskRef := staleTaskRef h;
     staleAbortControllerRef := staleAbortControllerRef h;
     resultRef := result; signals := signals h; runs := runs h;
     effects := effects h |}.

Definition set_staleTaskRef (t : option AsyncTask) (h : Hook) : Hook :=
  {| tasks := tasks h; staleTaskRef := t;
     staleAbortControllerRef := staleAbortControllerRef h;
     resultRef := resultRef h; signals := signals h; runs := runs h;
     effects := effects h |}.

Definition set_staleAbortControllerRef (c : option AbortController) (h : Hook) : Hook :=
  {| tasks := tasks h; staleTaskRef := staleTaskRef h;
     staleAbortControllerRef := c;
     resultRef := resultRef h; signals := signals h; runs := runs h;
     effects := effects h |}.

Definition set_signals (s : gset nat) (h : Hook) : Hook :=
  {| tasks := tasks h; staleTaskRef := staleTaskRef h;
     staleAbortControllerRef := staleAbortControllerRef h;
     resultRef := resultRef h; signals := s; runs := runs h;
     effects := effects h |}.

Definition set_runs (l : list Run) (h : Hook) : Hook :=
  {| tasks := tasks h; staleTaskRef := staleTaskRef h;
     staleAbortControllerRef := staleAbortControllerRef h;
     resultRef := resultRef h; signals := signals h; runs := l;
     effects := effects h |}.

(** [rerender = () => setIsRerender({})]: the notifier. *)
Definition rerender (h : Hook) : Hook := emit Rerender h.

(** [AbortController.prototype.abort]: the signal's flag becomes true. *)
Definition controller_abort (c : AbortController) (h : Hook) : Hook :=
  emit (ControllerAbort c) (set_signals ({[c]} ∪ signals h) h).

(** [updateResult], lines 138-141, as captured by run [r]. *)
Definition updateResult (r : Run) (result : Result) (h : Hook) : Hook :=
  let h := emit (ResultSet result) (set_resultRef result h) in
  emit (TasksSet (task r) (status result))
       (set_tasks (<[task r := status result]> (tasks h)) h).

(** [abort], lines 122-128, as captured by run [r]. *)
Definition abort (r : Run) (h : Hook) : Hook :=
  match tasks h !! task r with
  | Some running =>
      rerender (controller_abort (abortController r) (updateResult r Aborted h))
  | _ => h
  end.

(** [onfulfilled], lines 144-154. *)
Definition onfulfilled (r : Run) (value : Z) (h : Hook) : Hook :=
  match tasks h !! task r with
  | None => h
  | Some aborted => h
  | Some _ => rerender (updateResult r (Fulfilled value) h)
  end.

(** [onrejected], lines 155-165. *)
Definition onrejected (r : Run) (error : unknown) (h : Hook) : Hook :=
  match error with
  | symbolInvalidate => h
  | symbolAborted => h
  | _ => rerender (updateResult r (Rejected error) h)
  end.

(** [tick], lines 167-179.  The executor of the promise runs synchronously,
    so the promise is already settled when [tick] returns. *)
Definition tick (r : Run) (h : Hook) : TickPromise :=
  match tasks h !! task r with
  | None => reject symbolInvalidate
  | Some aborted => reject symbolAborted
  | Some _ => resolve r
  end.

(** [task(scheduler).then(onfulfilled).catch(onrejected)], line 191, at the
    moment the task's promise settles. *)
Definition settle (r : Run) (o : Outcome) (h : Hook) : Hook :=
  match o with
  | fulfils value => onfulfilled r value h
  | rejects error => onrejected r error h
  end.

(** The environment of the next execution of the hook body: the task passed
    to this render and a controller from [new AbortController()], line 121. *)
Definition new_run (t : AsyncTask) (h : Hook) : Run :=
  {| task := t; abortController := length (runs h) |}.

(** The body run by [useMemo(..., dependencies)], lines 143-192, together
    with the controller of line 121, which is renewed on the same
    dependencies. *)
Definition start (t : AsyncTask) (h : Hook) : Hook :=
  let r := new_run t h in
  let h := set_runs (runs h ++ [r]) h in
  let h := updateResult r (Running r) h in
  let h := match staleTaskRef h with
           | Some stale => emit (TasksDelete stale) (set_tasks (delete stale (tasks h)) h)
           | None => h
           end in
  let h := set_staleTaskRef (Some t) h in
  let h := match staleAbortControllerRef h with
           | Some stale => controller_abort stale h
           | None => h
           end in
  let h := set_staleAbortControllerRef (Some (abortController r)) h in
  emit (TaskCall r) h.

(** The cells as the first render creates them, lines 112-133, before the
    [useMemo] body of that render runs. *)
Definition initial (t : AsyncTask) : Hook :=
  {| tasks := ∅; staleTaskRef := None; staleAbortControllerRef := None;
     resultRef := Running {| task := t; abortController := 0 |};
     signals := ∅; runs := []; effects := [] |}.

(** One call of the hook: on the first render, and on every render whose
    dependencies changed, the body runs; the result is [resultRef.current]. *)
Definition useAwaitData (t : AsyncTask) (changed : bool) (h : option Hook) : Hook * Result :=
  let h' := match h with
            | None => start t (initial t)
            | Some h => if changed then start t h else h
            end in
  (h', resultRef h').

Definition mount (t : AsyncTask) : Hook := fst (useAwaitData t true None).

(** ** Histories *)

(** What can happen to a mounted hook: the component renders again, a
    consumer calls the [abort] property of the result that run [i] published,
    or the promise of run [i] settles. *)
Inductive Event :=
| Render (t : AsyncTask) (changed : bool)
| Abort (i : nat)
| Settle (i : nat) (o : Outcome).

Definition step (h : Hook) (e : Event) : Hook :=
  match e with
  | Render t changed => fst (useAwaitData t changed (Some h))
  | Abort i => match runs h !! i with Some r => abort r h | None => h end
  | Settle i o => match runs h !! i with Some r => settle r o h | None => h end
  end.

Definition exec (evs : list Event) (h : Hook) : Hook := foldl step h evs.

Definition is_rerender (e : Effect) : bool :=
  match e with Rerender => true | _ => false end.

(** A write of [updateResult] that ends a run: any status but [running]. *)
Definition is_outcome (e : Effect) : bool :=
  match e with
  | ResultSet (Running _) => false
  | ResultSet _ => true
  | _ => false
  end.

(** Number of notifier calls so far. *)
Definition notifications (h : Hook) : nat :=
  length (List.filter is_rerender (effects h)).

(** Number of fulfilled, rejected or aborted results published so far. *)
Definition outcomes (h : Hook) : nat :=
  length (List.filter is_outcome (effects h)).

(** A closure that publishes an outcome either leaves the hook alone or
    writes one result that is not running and calls [rerender] once. *)
Definition publishes_once (h h' : Hook) : Prop :=
  h' = h ∨
  (status (resultRef h') ≠ running ∧
   notifications h' = S (notifications h) ∧ outcomes h' = S (outcomes h)).

(** An event that runs the hook body, with whatever task. *)
Definition is_start (e : Event) : bool :=
  match e with
  | Render _ changed => changed
  | _ => false
  end.

(** [restarts t e]: the event runs the hook body with task [t]. *)
Definition restarts (t : AsyncTask) (e : Event) : bool :=
  match e with
  | Render t' changed => changed && Nat.eqb t' t
  | _ => false
  end.

(** [writes k h e]: in state [h], event [e] can give task [k] an entry in
    [tasks] that it did not have: the body runs with [k], or a run of [k]
    rejects with a reason that is not one of the two symbols. *)
Definition writes (k : AsyncTask) (h : Hook) (e : Event) : bool :=
  match e with
  | Render t changed => changed && Nat.eqb t k
  | Settle i (rejects (thrown _)) =>
      match runs h !! i with
      | Some r => Nat.eqb (task r) k
      | None => false
      end
  | _ => false
  end.

(** No event of [evs], played from [h], gives task [k] a new entry. *)
Fixpoint untouched (k : AsyncTask) (h : Hook) (evs : list Event) : bool :=
  match evs with
  | [] => true
  | e :: evs => negb (writes k h e) && untouched k (step h e) evs
  end.

(** [r] is the run created last. *)
Definition latest (h : Hook) (r : Run) : Prop := last (runs h) = Some r.

(** What holds of the cells of a mounted hook whatever happens to it. *)
Record consistent (h : Hook) : Prop := {
  (* the two stale refs point to the run created last *)
  cons_latest : ∃ r, latest h r ∧
                     staleTaskRef h = Some (task r) ∧
                     staleAbortControllerRef h = Some (abortController r);
  (* the i-th run owns the i-th controller *)
  cons_numbered : ∀ i r, runs h !! i = Some r → abortController r = i;
  (* only controllers that exist are aborted *)
  cons_bound : ∀ c, c ∈ signals h → c < length (runs h);
  (* a task with status "running" is the one in staleTaskRef *)
  cons_owner : ∀ t, tasks h !! t = Some running → staleTaskRef h = Some t
}.

(** In history [evs] of a hook mounted with [t0], the [abort] closure of the
    run that owns controller [c] was called while that run's task was
    registered in [tasks] with status ["running"]. *)
Definition abort_requested (t0 : AsyncTask) (evs : list Event) (c : AbortController) : Prop :=
  ∃ evs1 i evs2 r,
    evs = evs1 ++ Abort i :: evs2 ∧
    runs (exec evs1 (mount t0)) !! i = Some r ∧
    abortController r = c ∧
    tasks (exec evs1 (mount t0)) !! task r = Some running.

(** In history [evs], the hook body ran again while the run that owns
    controller [c] was the latest one. *)
Definition evicted_by_start (t0 : AsyncTask) (evs : list Event) (c : AbortController) : Prop :=
  ∃ evs1 t evs2 r,
    evs = evs1 ++ Render t true :: evs2 ∧
    latest (exec evs1 (mount t0)) r ∧
    abortController r = c.

(** ** Further observations on histories *)

Definition is_task_call (e : Effect) : bool :=
  match e with TaskCall _ => true | _ => false end.

(** Number of calls [task(scheduler)] so far. *)
Definition task_calls (h : Hook) : nat :=
  length (List.filter is_task_call (effects h)).

(** Number of renders of a history whose dependencies changed. *)
Definition changed_renders (evs : list Event) : nat :=
  length (List.filter is_start evs).

(** A settlement that [onrejected] does not swallow on the reason alone: a
    fulfilment, or a rejection with a reason that is not one of the two
    symbols. *)
Definition genuine (o : Outcome) : bool :=
  match o with
  | rejects symbolInvalidate => false
  | rejects symbolAborted => false
  | _ => true
  end.

(** [foreign_reject h e]: in state [h], event [e] is the rejection, with a
    reason that is not one of the two symbols, of a run whose task is not the
    one in [staleTaskRef]. *)
Definition foreign_reject (h : Hook) (e : Event) : bool :=
  match e with
  | Settle i (rejects (thrown _)) =>
      match runs h !! i with
      | Some r =>
          match staleTaskRef h with
          | Some stale => negb (Nat.eqb (task r) stale)
          | None => true
          end
      | None => false
      end
  | _ => false
  end.

(** No event of [evs], played from [h], is such a rejection. *)
Fixpoint owner_rejects_only (h : Hook) (evs : list Event) : bool :=
  match evs with
  | [] => true
  | e :: evs => negb (foreign_reject h e) && owner_rejects_only (step h e) evs
  end.

(** Task [k] has no entry in [tasks], or the entry is ["aborted"]: the two
    cases in which [onfulfilled] and [tick] give up. *)
Definition dead (k : AsyncTask) (h : Hook) : Prop :=
  tasks h !! k = None ∨ tasks h !! k = Some aborted.

(** * Properties *)

(** ** What each operation leaves in each cell *)

Lemma tasks_start (t : AsyncTask) (h : Hook) :
  tasks (start t h) =
    match staleTaskRef h with
    | Some stale => delete stale (<[t := running]> (tasks h))
    | None => <[t := running]> (tasks h)
    end.
Proof. destruct h as [m [stale|] [ctl|] res sg rs ef]; reflexivity. Qed.

Lemma signals_start (t : AsyncTask) (h : Hook) :
  signals (start t h) =
    match staleAbortControllerRef h with
    | Some stale => {[stale]} ∪ signals h
    | None => signals h
    end.
Proof. destruct h as [m [stale|] [ctl|] res sg rs ef]; reflexivity. Qed.

Lemma runs_start (t : AsyncTask) (h : Hook) :
  runs (start t h) = runs h ++ [new_run t h].
Proof. destruct h as [m [stale|] [ctl|] res sg rs ef]; reflexivity. Qed.

Lemma stale_start (t : AsyncTask) (h : Hook) :
  staleTaskRef (start t h) = Some t ∧
  staleAbortControllerRef (start t h) = Some (length (runs h)).
Proof. destruct h as [m [stale|] [ctl|] res sg rs ef]; split; reflexivity. Qed.

Lemma resultRef_start (t : AsyncTask) (h : Hook) :
  resultRef (start t h) = Running (new_run t h).
Proof. destruct h as [m [stale|] [ctl|] res sg rs ef]; reflexivity. Qed.

Lemma effects_start (t : AsyncTask) (h : Hook) :
  effects (start t h) =
    effects h
    ++ [ResultSet (Running (new_run t h)); TasksSet t running]
    ++ match staleTaskRef h with Some stale => [TasksDelete stale] | None => [] end
    ++ match staleAbortControllerRef h with
       | Some stale => [ControllerAbort stale]
       | None => []
       end
    ++ [TaskCall (new_run t h)].
Proof.
  destruct h as [m [stale|] [ctl|] res sg rs ef]; unfold start; simpl;
    rewrite <- ?app_assoc; reflexivity.
Qed.

Lemma start_evicts (t : AsyncTask) (h : Hook) (stale : AsyncTask) :
  staleTaskRef h = Some stale → tasks (start t h) !! stale = None.
Proof. intros Hs. rewrite tasks_start, Hs. apply lookup_delete_eq. Qed.

Lemma mount_start (t : AsyncTask) : mount t = start t (initial t).
Proof. reflexivity. Qed.

(** What [updateResult] followed by [rerender] leaves behind. *)
Lemma publish_cells (r : Run) (res : Result) (h : Hook) :
  resultRef (rerender (updateResult r res h)) = res ∧
  tasks (rerender (updateResult r res h)) = <[task r := status res]> (tasks h) ∧
  effects (rerender (updateResult r res h))
    = effects h ++ [ResultSet res; TasksSet (task r) (status res); Rerender].
Proof.
  repeat split. simpl. rewrite <- !app_assoc. reflexivity.
Qed.

Lemma publish_changes (r : Run) (res : Result) (h : Hook) :
  rerender (updateResult r res h) ≠ h.
Proof.
  intros H. apply (f_equal (λ x, length (effects x))) in H.
  destruct (publish_cells r res h) as (_ & _ & Heff).
  rewrite Heff, length_app in H. simpl in H. lia.
Qed.

Lemma abort_running (r : Run) (h : Hook) :
  tasks h !! task r = Some running →
  abort r h = rerender (controller_abort (abortController r) (updateResult r Aborted h)).
Proof. unfold abort. intros ->. reflexivity. Qed.

Lemma abort_not_running (r : Run) (h : Hook) :
  tasks h !! task r ≠ Some running → abort r h = h.
Proof.
  unfold abort. destruct (tasks h !! task r) as [[]|]; congruence.
Qed.

Lemma abort_effects (r : Run) (h : Hook) :
  effects (rerender (controller_abort (abortController r) (updateResult r Aborted h)))
  = effects h ++ [ResultSet Aborted; TasksSet (task r) aborted;
                  ControllerAbort (abortController r); Rerender].
Proof. simpl. rewrite <- !app_assoc. reflexivity. Qed.

Lemma signals_abort (r : Run) (h : Hook) :
  signals (abort r h) =
    match tasks h !! task r with
    | Some running => {[abortController r]} ∪ signals h
    | _ => signals h
    end.
Proof. unfold abort. destruct (tasks h !! task r) as [[]|]; reflexivity. Qed.

(** [abort] and [settle] create no closure and touch neither ref of the
    stale run; [settle] aborts no controller. *)
Lemma abort_frame (r : Run) (h : Hook) :
  runs (abort r h) = runs h ∧
  staleTaskRef (abort r h) = staleTaskRef h ∧
  staleAbortControllerRef (abort r h) = staleAbortControllerRef h.
Proof. unfold abort. destruct (tasks h !! task r) as [[]|]; auto. Qed.

Lemma settle_frame (r : Run) (o : Outcome) (h : Hook) :
  runs (settle r o h) = runs h ∧
  staleTaskRef (settle r o h) = staleTaskRef h ∧
  staleAbortControllerRef (settle r o h) = staleAbortControllerRef h ∧
  signals (settle r o h) = signals h.
Proof.
  destruct o as [v|e]; simpl.
  - unfold onfulfilled. destruct (tasks h !! task r) as [[]|]; auto.
  - unfold onrejected. destruct e; auto.
Qed.

(** Only the body of the hook writes ["running"]: after [abort] or [settle],
    a task that is running was running before. *)
Lemma abort_running_before (r : Run) (h : Hook) (t : AsyncTask) :
  tasks (abort r h) !! t = Some running → tasks h !! t = Some running.
Proof.
  unfold abort. destruct (tasks h !! task r) as [[]|] eqn:E; auto.
  simpl. destruct (decide (task r = t)) as [<-|Hne].
  - rewrite lookup_insert_eq. discriminate.
  - rewrite lookup_insert_ne by done. auto.
Qed.

Lemma settle_running_before (r : Run) (o : Outcome) (h : Hook) (t : AsyncTask) :
  tasks (settle r o h) !! t = Some running → tasks h !! t = Some running.
Proof.
  assert (Hins : ∀ s, s ≠ running →
    <[task r := s]> (tasks h) !! t = Some running → tasks h !! t = Some running).
  { intros s Hs. destruct (decide (task r = t)) as [<-|Hne].
    - rewrite lookup_insert_eq. congruence.
    - rewrite lookup_insert_ne by done. auto. }
  destruct o as [v|e]; simpl.
  - unfold onfulfilled. destruct (tasks h !! task r) as [[]|]; auto;
      simpl; apply Hins; discriminate.
  - unfold onrejected. destruct e; auto. simpl. apply Hins. discriminate.
Qed.

(** ** One event at a time *)

Lemma exec_snoc (evs : list Event) (e : Event) (h : Hook) :
  exec (evs ++ [e]) h = step (exec evs h) e.
Proof. unfold exec. apply foldl_snoc. Qed.

Lemma exec_cons (e : Event) (evs : list Event) (h : Hook) :
  exec (e :: evs) h = exec evs (step h e).
Proof. reflexivity. Qed.

Lemma step_render (t : AsyncTask) (changed : bool) (h : Hook) :
  step h (Render t changed) = if changed then start t h else h.
Proof. reflexivity. Qed.

Lemma step_abort (i : nat) (h : Hook) :
  step h (Abort i) = match runs h !! i with Some r => abort r h | None => h end.
Proof. reflexivity. Qed.

Lemma step_settle (i : nat) (o : Outcome) (h : Hook) :
  step h (Settle i o) = match runs h !! i with Some r => settle r o h | None => h end.
Proof. reflexivity. Qed.

(** Case analysis on an event, with [step] replaced by the operation run. *)
Ltac by_event e :=
  destruct e as [?t ?changed|?i|?i ?o];
  rewrite ?step_render, ?step_abort, ?step_settle.

(** Induction over a history, played from the left. *)
Ltac by_history evs h :=
  revert h; induction evs as [|?e ?evs ?IH]; intros h;
  [|rewrite ?exec_cons].

Lemma step_running_before (t : AsyncTask) (e : Event) (h : Hook) :
  restarts t e = false →
  tasks (step h e) !! t = Some running → tasks h !! t = Some running.
Proof.
  by_event e; unfold restarts.
  - destruct changed; auto. rewrite andb_true_l.
    intros Hne%Nat.eqb_neq. rewrite tasks_start.
    destruct (staleTaskRef h) as [stale|].
    + destruct (decide (stale = t)) as [->|Hst].
      * rewrite lookup_delete_eq. discriminate.
      * rewrite lookup_delete_ne, lookup_insert_ne by done. auto.
    + rewrite lookup_insert_ne by done. auto.
  - intros _. destruct (runs h !! i); auto. apply abort_running_before.
  - intros _. destruct (runs h !! i); auto. apply settle_running_before.
Qed.

Lemma exec_running_before (t : AsyncTask) (evs : list Event) (h : Hook) :
  forallb (λ e, negb (restarts t e)) evs = true →
  tasks (exec evs h) !! t = Some running → tasks h !! t = Some running.
Proof.
  by_history evs h; intros Hall Hrun; [exact Hrun|].
  apply andb_prop in Hall as [He Hevs]. apply negb_true_iff in He.
  eauto using step_running_before.
Qed.





Lemma signals_step_mono (e : Event) (h : Hook) : signals h ⊆ signals (step h e).
Proof.
  by_event e.
  - destruct changed; [|done]. rewrite signals_start.
    destruct (staleAbortControllerRef h); set_solver.
  - destruct (runs h !! i) as [r|]; [|done]. rewrite signals_abort.
    destruct (tasks h !! task r) as [[]|]; set_solver.
  - destruct (runs h !! i) as [r|]; [|done].
    destruct (settle_frame r o h) as (_ & _ & _ & ->). done.
Qed.

(** ** Invariants of a mounted hook *)

Create HintDb hook.

Lemma latest_controller (h : Hook) (r : Run) :
  (∀ i r, runs h !! i = Some r → abortController r = i) →
  latest h r →
  S (abortController r) = length (runs h).
Proof.
  unfold latest. intros Hnum Hlast. rewrite last_lookup in Hlast.
  rewrite (Hnum _ _ Hlast). apply lookup_lt_Some in Hlast. lia.
Qed.

Lemma consistent_mount (t : AsyncTask) : consistent (mount t).
Proof.
  rewrite mount_start. split.
  - exists (new_run t (initial t)). repeat split.
  - intros i r. rewrite runs_start. simpl.
    intros [-> <-]%list_lookup_singleton_Some. reflexivity.
  - intros c. rewrite signals_start. simpl. set_solver.
  - intros t'. rewrite tasks_start. simpl.
    intros [[-> _] | [_ H]]%lookup_insert_Some; [reflexivity|].
    rewrite lookup_empty in H. discriminate.
Qed.

Lemma consistent_start (t : AsyncTask) (h : Hook) :
  consistent h → consistent (start t h).
Proof.
  intros [(r0 & Hlast & Hst & Hsc) Hnum Hbd Hown].
  pose proof (latest_controller h r0 Hnum Hlast) as Hlen.
  split.
  - exists (new_run t h). unfold latest. split; [|split].
    + rewrite runs_start. apply last_snoc.
    + apply stale_start.
    + apply stale_start.
  - intros i r. rewrite runs_start.
    intros [[_ H] | [-> <-]]%lookup_snoc_Some; [eauto|reflexivity].
  - intros c. rewrite signals_start, Hsc, runs_start, length_app. simpl.
    intros [->%elem_of_singleton | Hc%Hbd]%elem_of_union; lia.
  - intros t'. rewrite tasks_start, Hst. destruct (stale_start t h) as [-> _].
    destruct (decide (task r0 = t')) as [<-|Hne].
    + rewrite lookup_delete_eq. discriminate.
    + rewrite lookup_delete_ne by done.
      intros [[-> _] | [_ H]]%lookup_insert_Some; [reflexivity|].
      apply Hown in H. congruence.
Qed.

Lemma consistent_abort (r : Run) (i : nat) (h : Hook) :
  runs h !! i = Some r → consistent h → consistent (abort r h).
Proof.
  intros Hr [(r0 & Hl) Hnum Hbd Hown].
  destruct (abort_frame r h) as (Hruns & Hst & Hsc).
  split.
  - exists r0. unfold latest. rewrite Hruns, Hst, Hsc. exact Hl.
  - rewrite Hruns. exact Hnum.
  - rewrite Hruns, signals_abort. intros c Hc.
    assert (abortController r < length (runs h)).
    { rewrite (Hnum _ _ Hr). eapply lookup_lt_Some, Hr. }
    destruct (tasks h !! task r) as [[]|]; auto.
    apply elem_of_union in Hc as [->%elem_of_singleton | Hc]; auto.
  - rewrite Hst. intros t Ht. eauto using abort_running_before.
Qed.

Lemma consistent_settle (r : Run) (o : Outcome) (h : Hook) :
  consistent h → consistent (settle r o h).
Proof.
  intros [(r0 & Hl) Hnum Hbd Hown].
  destruct (settle_frame r o h) as (Hruns & Hst & Hsc & Hsig).
  split; unfold latest; rewrite ?Hruns, ?Hsig, ?Hst, ?Hsc; eauto.
  intros t Ht. eauto using settle_running_before.
Qed.

#[local] Hint Resolve consistent_mount consistent_start consistent_abort
  consistent_settle : hook.

Lemma consistent_step (e : Event) (h : Hook) :
  consistent h → consistent (step h e).
Proof.
  intros Hc. by_event e.
  - destruct changed; auto with hook.
  - destruct (runs h !! i) eqn:E; eauto with hook.
  - destruct (runs h !! i); auto with hook.
Qed.

Lemma consistent_exec (evs : list Event) (h : Hook) :
  consistent h → consistent (exec evs h).
Proof.
  by_history evs h; intros Hc; [exact Hc|]. auto using consistent_step.
Qed.

Section Mounted.

Variable t0 : AsyncTask.
Variable evs : list Event.

(** The hook after history [evs]. *)
Let now : Hook := exec evs (mount t0).

Lemma consistent_now : consistent now.
Proof. apply consistent_exec, consistent_mount. Qed.

(** After any history, at most one task has status ["running"]: the task of
    the run created last. *)
Lemma single_running_owner (t1 t2 : AsyncTask) :
  tasks now !! t1 = Some running → tasks now !! t2 = Some running → t1 = t2.
Proof.
  intros H1 H2.
  apply (cons_owner _ consistent_now) in H1.
  apply (cons_owner _ consistent_now) in H2. congruence.
Qed.

(** An execution of the body aborts the controller of the run created last,
    and never the controller it has just created. *)
Lemma start_signals (t : AsyncTask) :
  ∃ prev, latest now prev ∧
          staleTaskRef now = Some (task prev) ∧
          signals (start t now) = {[abortController prev]} ∪ signals now ∧
          abortController (new_run t now) ∉ signals (start t now).
Proof.
  destruct (cons_latest _ consistent_now) as (prev & Hlast & Hst & Hsc).
  pose proof (latest_controller _ _ (cons_numbered _ consistent_now) Hlast) as Hlen.
  exists prev. rewrite signals_start, Hsc. repeat split; auto.
  simpl. intros [Heq%elem_of_singleton | Hin]%elem_of_union.
  - lia.
  - apply (cons_bound _ consistent_now) in Hin. lia.
Qed.

End Mounted.

(** ** Counting notifications *)

Lemma counts_app (h h' : Hook) (l : list Effect) :
  effects h' = effects h ++ l →
  notifications h' = notifications h + length (List.filter is_rerender l) ∧
  outcomes h' = outcomes h + length (List.filter is_outcome l).
Proof.
  intros H. unfold notifications, outcomes.
  rewrite H, !List.filter_app, !length_app. auto.
Qed.

Lemma counts_start (t : AsyncTask) (h : Hook) :
  notifications (start t h) = notifications h ∧ outcomes (start t h) = outcomes h.
Proof.
  destruct (counts_app h (start t h) _ (effects_start t h)) as [-> ->].
  destruct (staleTaskRef h), (staleAbortControllerRef h); simpl; lia.
Qed.

Lemma publish_counts (r : Run) (res : Result) (h : Hook) :
  status res ≠ running →
  notifications (rerender (updateResult r res h)) = S (notifications h) ∧
  outcomes (rerender (updateResult r res h)) = S (outcomes h).
Proof.
  intros Hres. destruct (publish_cells r res h) as (_ & _ & Heff).
  destruct (counts_app _ _ _ Heff) as [-> ->].
  destruct res; simpl in *; try congruence; lia.
Qed.

Lemma abort_counts (r : Run) (h : Hook) :
  tasks h !! task r = Some running →
  notifications (abort r h) = S (notifications h) ∧
  outcomes (abort r h) = S (outcomes h).
Proof.
  intros Hrun. rewrite (abort_running _ _ Hrun).
  destruct (counts_app _ _ _ (abort_effects r h)) as [-> ->]. simpl. lia.
Qed.

Lemma abort_publishes_once (r : Run) (h : Hook) : publishes_once h (abort r h).
Proof.
  destruct (tasks h !! task r) as [s|] eqn:E.
  - destruct s; try (left; apply abort_not_running; congruence).
    right. split; [|apply abort_counts, E].
    rewrite (abort_running _ _ E). discriminate.
  - left. apply abort_not_running. congruence.
Qed.

Lemma settle_publishes_once (r : Run) (o : Outcome) (h : Hook) :
  publishes_once h (settle r o h).
Proof.
  assert (Hpub : ∀ res, status res ≠ running →
            publishes_once h (rerender (updateResult r res h))).
  { intros res Hres. right. split; [|apply publish_counts, Hres].
    destruct (publish_cells r res h) as (-> & _). exact Hres. }
  destruct o as [v|e]; simpl.
  - unfold onfulfilled.
    destruct (tasks h !! task r) as [[]|]; try (left; reflexivity);
      apply Hpub; discriminate.
  - unfold onrejected. destruct e; try (left; reflexivity).
    apply Hpub; discriminate.
Qed.

Lemma balanced_step (e : Event) (h : Hook) :
  notifications h = outcomes h →
  notifications (step h e) = outcomes (step h e).
Proof.
  intros Hb. by_event e.
  - destruct changed; [|exact Hb]. destruct (counts_start t h) as [-> ->]. exact Hb.
  - destruct (runs h !! i) as [r|]; [|exact Hb].
    destruct (abort_publishes_once r h) as [->|(_ & -> & ->)]; congruence.
  - destruct (runs h !! i) as [r|]; [|exact Hb].
    destruct (settle_publishes_once r o h) as [->|(_ & -> & ->)]; congruence.
Qed.

Lemma balanced_exec (evs : list Event) (h : Hook) :
  notifications h = outcomes h →
  notifications (exec evs h) = outcomes (exec evs h).
Proof.
  by_history evs h; intros Hb; [exact Hb|]. auto using balanced_step.
Qed.

(** ** Which signals are aborted *)

Lemma abort_requested_snoc (t0 : AsyncTask) (evs : list Event) (e : Event) (c : nat) :
  abort_requested t0 evs c → abort_requested t0 (evs ++ [e]) c.
Proof.
  intros (evs1 & i & evs2 & r & -> & H). exists evs1, i, (evs2 ++ [e]), r.
  split; [|exact H]. rewrite <- app_assoc. reflexivity.
Qed.

Lemma evicted_by_start_snoc (t0 : AsyncTask) (evs : list Event) (e : Event) (c : nat) :
  evicted_by_start t0 evs c → evicted_by_start t0 (evs ++ [e]) c.
Proof.
  intros (evs1 & t & evs2 & r & -> & H). exists evs1, t, (evs2 ++ [e]), r.
  split; [|exact H]. rewrite <- app_assoc. reflexivity.
Qed.

Lemma signals_sound (t0 : AsyncTask) (evs : list Event) (c : nat) :
  c ∈ signals (exec evs (mount t0)) →
  abort_requested t0 evs c ∨ evicted_by_start t0 evs c.
Proof.
  induction evs as [|e evs IH] using rev_ind.
  - change (exec [] (mount t0)) with (start t0 (initial t0)).
    rewrite signals_start. simpl. set_solver.
  - rewrite exec_snoc.
    pose proof (consistent_now t0 evs) as Hc.
    set (h := exec evs (mount t0)) in *.
    assert (Hold : c ∈ signals h →
      abort_requested t0 (evs ++ [e]) c ∨ evicted_by_start t0 (evs ++ [e]) c).
    { intros [H|H]%IH; [left|right];
        auto using abort_requested_snoc, evicted_by_start_snoc. }
    by_event e.
    + destruct changed; [|exact Hold].
      destruct (cons_latest _ Hc) as (prev & Hlast & Hst & Hsc).
      rewrite signals_start, Hsc.
      intros [->%elem_of_singleton | Hin]%elem_of_union; [|auto].
      right. exists evs, t, [], prev. repeat split; assumption.
    + destruct (runs h !! i) as [r|] eqn:Hr; [|exact Hold].
      rewrite signals_abort. destruct (tasks h !! task r) as [[]|] eqn:Hrun; auto.
      intros [->%elem_of_singleton | Hin]%elem_of_union; [|auto].
      left. exists evs, i, [], r. repeat split; assumption.
    + destruct (runs h !! i) as [r|]; [|exact Hold].
      destruct (settle_frame r o h) as (_ & _ & _ & ->). exact Hold.
Qed.

Lemma signals_mono_app (t0 : AsyncTask) (evs1 evs2 : list Event) (c : nat) :
  c ∈ signals (exec evs1 (mount t0)) →
  c ∈ signals (exec (evs1 ++ evs2) (mount t0)).
Proof.
  induction evs2 as [|e evs2 IH] using rev_ind.
  - rewrite app_nil_r. auto.
  - intros H. rewrite app_assoc, exec_snoc. apply signals_step_mono. auto.
Qed.

Lemma signals_complete (t0 : AsyncTask) (evs : list Event) (c : nat) :
  abort_requested t0 evs c ∨ evicted_by_start t0 evs c →
  c ∈ signals (exec evs (mount t0)).
Proof.
  intros [(evs1 & i & evs2 & r & -> & Hr & <- & Hrun)
         |(evs1 & t & evs2 & r & -> & Hlast & <-)].
  - change (evs1 ++ Abort i :: evs2) with (evs1 ++ [Abort i] ++ evs2).
    rewrite app_assoc. apply signals_mono_app.
    rewrite exec_snoc, step_abort, Hr, signals_abort, Hrun. set_solver.
  - change (evs1 ++ Render t true :: evs2) with (evs1 ++ [Render t true] ++ evs2).
    rewrite app_assoc. apply signals_mono_app.
    destruct (cons_latest _ (consistent_now t0 evs1)) as (r' & Hlast' & _ & Hsc).
    unfold latest in *. assert (r' = r) as -> by congruence.
    rewrite exec_snoc, step_render, signals_start, Hsc. set_solver.
Qed.

(** * The specified behaviour *)

(** ** The checkpoint *)

(** C2. A call of [tick] on any run rejects with [symbolInvalidate] when the
    run's task has no entry in [tasks], rejects with [symbolAborted] when the
    entry is ["aborted"], and in every other case (["running"], ["fulfilled"]
    or ["rejected"]) resolves to the [tick] closure of that same run. *)
Theorem tick_fidelity (r : Run) (h : Hook) :
  (tasks h !! task r = None → tick r h = reject symbolInvalidate) ∧
  (tasks h !! task r = Some aborted → tick r h = reject symbolAborted) ∧
  (∀ s, tasks h !! task r = Some s → s ≠ aborted → tick r h = resolve r).
Proof.
  unfold tick. repeat split.
  - intros ->. reflexivity.
  - intros ->. reflexivity.
  - intros s -> Hs. destruct s; congruence.
Qed.

Lemma tick_fidelity_witness :
  tick (new_run 1 (initial 1)) (initial 1) = reject symbolInvalidate ∧
  tick (new_run 1 (initial 1)) (abort (new_run 1 (initial 1)) (mount 1))
    = reject symbolAborted ∧
  tick (new_run 1 (initial 1)) (mount 1) = resolve (new_run 1 (initial 1)).
Proof.
  split; [|split].
  - apply (tick_fidelity (new_run 1 (initial 1)) (initial 1)).
    vm_compute. reflexivity.
  - apply (tick_fidelity (new_run 1 (initial 1))
             (abort (new_run 1 (initial 1)) (mount 1))).
    vm_compute. reflexivity.
  - apply (tick_fidelity (new_run 1 (initial 1)) (mount 1)) with (s := running).
    + vm_compute. reflexivity.
    + discriminate.
Defined.

(** ** Settlement *)

(** C3. When the task's promise fulfils, the value is dropped (the hook is
    left exactly as it was) if and only if the task has no entry in [tasks] or
    the entry is ["aborted"]; otherwise the result becomes
    [{status: "fulfilled", value}] and [rerender] is called once.  When the
    promise rejects, the reason is dropped if and only if it is one of the two
    symbols; otherwise the result becomes [{status: "rejected", error}] with
    the very reason received, and [rerender] is called once. *)
Theorem settlement_policy (r : Run) (h : Hook) (value : Z) (error : unknown) :
  (onfulfilled r value h = h ↔
     tasks h !! task r = None ∨ tasks h !! task r = Some aborted) ∧
  (∀ s, tasks h !! task r = Some s → s ≠ aborted →
     resultRef (onfulfilled r value h) = Fulfilled value ∧
     tasks (onfulfilled r value h) = <[task r := fulfilled]> (tasks h) ∧
     effects (onfulfilled r value h)
       = effects h ++ [ResultSet (Fulfilled value); TasksSet (task r) fulfilled;
                       Rerender] ∧
     notifications (onfulfilled r value h) = S (notifications h)) ∧
  (onrejected r error h = h ↔
     error = symbolInvalidate ∨ error = symbolAborted) ∧
  (error ≠ symbolInvalidate → error ≠ symbolAborted →
     resultRef (onrejected r error h) = Rejected error ∧
     tasks (onrejected r error h) = <[task r := rejected]> (tasks h) ∧
     effects (onrejected r error h)
       = effects h ++ [ResultSet (Rejected error); TasksSet (task r) rejected;
                       Rerender] ∧
     notifications (onrejected r error h) = S (notifications h)).
Proof.
  assert (Hpub : ∀ res, status res ≠ running →
    resultRef (rerender (updateResult r res h)) = res ∧
    tasks (rerender (updateResult r res h)) = <[task r := status res]> (tasks h) ∧
    effects (rerender (updateResult r res h))
      = effects h ++ [ResultSet res; TasksSet (task r) (status res); Rerender] ∧
    notifications (rerender (updateResult r res h)) = S (notifications h)).
  { intros res Hres. destruct (publish_cells r res h) as (H1 & H2 & H3).
    destruct (publish_counts r res h Hres) as [H4 _]. auto. }
  split; [|split; [|split]].
  - unfold onfulfilled. split.
    + destruct (tasks h !! task r) as [[]|] eqn:E; auto;
        intros H; exfalso; exact (publish_changes _ _ _ H).
    + intros [-> | ->]; reflexivity.
  - intros s Hs Hne. unfold onfulfilled. rewrite Hs.
    destruct s; try congruence; apply (Hpub (Fulfilled value)); discriminate.
  - unfold onrejected. split.
    + destruct error; auto. intros H; exfalso; exact (publish_changes _ _ _ H).
    + intros [-> | ->]; reflexivity.
  - intros H1 H2. unfold onrejected.
    destruct error; try congruence. apply (Hpub (Rejected (thrown e))). discriminate.
Qed.

Lemma settlement_policy_witness :
  resultRef (onfulfilled (new_run 1 (initial 1)) 7 (mount 1)) = Fulfilled 7 ∧
  resultRef (onrejected (new_run 1 (initial 1)) (thrown 5) (mount 1))
    = Rejected (thrown 5) ∧
  onfulfilled (new_run 1 (initial 1)) 7 (start 2 (mount 1)) = start 2 (mount 1) ∧
  onrejected (new_run 1 (initial 1)) symbolInvalidate (mount 1) = mount 1.
Proof.
  destruct (settlement_policy (new_run 1 (initial 1)) (mount 1) 7 (thrown 5))
    as (_ & Hful & _ & Hrej).
  destruct (settlement_policy (new_run 1 (initial 1)) (start 2 (mount 1)) 7
              symbolInvalidate) as (Hdrop & _ & _ & _).
  destruct (settlement_policy (new_run 1 (initial 1)) (mount 1) 7
              symbolInvalidate) as (_ & _ & Hsym & _).
  split; [|split; [|split]].
  - apply (Hful running); [vm_compute; reflexivity|discriminate].
  - apply Hrej; discriminate.
  - apply Hdrop. left. vm_compute. reflexivity.
  - apply Hsym. left. reflexivity.
Defined.

(** A fulfilment of a run whose task was evicted, or whose entry is
    ["aborted"], is dropped. *)
Lemma stale_fulfilment_dropped (r : Run) (value : Z) (h : Hook) :
  tasks h !! task r = None ∨ tasks h !! task r = Some aborted →
  onfulfilled r value h = h.
Proof. unfold onfulfilled. intros [-> | ->]; reflexivity. Qed.

(** C1. The settlement of a superseded or aborted run is silent when it is a
    fulfilment ([stale_fulfilment_dropped]) but not when it is a rejection
    with a reason of the task's own.  Run 0 (task 1) is superseded by run 1
    (task 2), so task 1 has no entry in [tasks]; run 0 then rejects with such
    a reason: [onrejected] does not consult [tasks], replaces the running
    result of run 1 by [{status: "rejected", error}] and calls [rerender].
    The same happens when run 0 is not superseded but aborted: the aborted
    result is replaced by the rejected one. *)
Theorem stale_rejection_published :
  let r0 := new_run 1 (initial 1) in
  let h := exec [Render 2 true] (mount 1) in
  let h' := exec [Abort 0] (mount 1) in
  (runs h !! 0 = Some r0 ∧
   tasks h !! task r0 = None ∧
   resultRef h = Running (new_run 2 (mount 1)) ∧
   resultRef (onrejected r0 (thrown 5) h) = Rejected (thrown 5) ∧
   notifications (onrejected r0 (thrown 5) h) = S (notifications h)) ∧
  (runs h' !! 0 = Some r0 ∧
   tasks h' !! task r0 = Some aborted ∧
   resultRef h' = Aborted ∧
   resultRef (onrejected r0 (thrown 5) h') = Rejected (thrown 5) ∧
   notifications (onrejected r0 (thrown 5) h') = S (notifications h')).
Proof. vm_compute. repeat split. Qed.

(** C5. [tasks] can hold two entries.  After run 0 (task 1) has been
    superseded by run 1 (task 2) and then rejects with a reason of the task's
    own, [updateResult] writes the entry of task 1 back: [tasks] holds the
    entries of both tasks, one of them not the current one.  (That at most
    one task has status ["running"] is [single_running_owner].) *)
Theorem stale_rejection_reinserts :
  let h := exec [Render 2 true; Settle 0 (rejects (thrown 5))] (mount 1) in
  staleTaskRef h = Some 2 ∧
  tasks h !! 1 = Some rejected ∧
  tasks h !! 2 = Some running ∧
  size (tasks h) = 2.
Proof. vm_compute. repeat split. Qed.

(** ** Abort requests *)







(** ** The hook body *)







(** ** Notifications *)

(** C7. [rerender] is called exactly once for every fulfilled or rejected
    result that a settlement publishes and for every aborted result that an
    abort request publishes, so that over any history the number of calls
    equals the number of such results; an execution of the hook body, the
    first one or a restart, calls it not at all. *)
Theorem notifier_once :
  (∀ r value h, publishes_once h (onfulfilled r value h)) ∧
  (∀ r error h, publishes_once h (onrejected r error h)) ∧
  (∀ r h, publishes_once h (abort r h)) ∧
  (∀ t h, notifications (start t h) = notifications h) ∧
  (∀ t0, notifications (mount t0) = 0) ∧
  (∀ t0 evs, notifications (exec evs (mount t0)) = outcomes (exec evs (mount t0))).
Proof.
  split; [|split; [|split; [|split; [|split]]]].
  - intros r value h. apply (settle_publishes_once r (fulfils value) h).
  - intros r error h. apply (settle_publishes_once r (rejects error) h).
  - apply abort_publishes_once.
  - intros t h. apply counts_start.
  - reflexivity.
  - intros t0 evs. apply balanced_exec. reflexivity.
Qed.

(** ** Cancellation signals *)

(** C8. After any history, the signal of a run has [aborted === true] if
    and only if the run's [abort] closure was called while the run's task was
    registered with status ["running"], or the hook body ran again while that
    run was the latest; nothing else sets the flag.  The signal of the first
    run is not aborted by the first execution of the body, and no execution
    of the body aborts the signal of the run it creates. *)
Theorem signal_roundtrip (t0 : AsyncTask) (evs : list Event) :
  (∀ c, c ∈ signals (exec evs (mount t0)) ↔
        abort_requested t0 evs c ∨ evicted_by_start t0 evs c) ∧
  signals (mount t0) = ∅ ∧
  (∀ t, abortController (new_run t (exec evs (mount t0)))
        ∉ signals (start t (exec evs (mount t0)))).
Proof.
  split; [|split].
  - intros c. split; [apply signals_sound|apply signals_complete].
  - reflexivity.
  - intros t. destruct (start_signals t0 evs t) as (prev & _ & _ & _ & H). exact H.
Qed.

(** * Further properties of the hook *)

(** ** How often the task is called *)

Lemma task_calls_app (h h' : Hook) (l : list Effect) :
  effects h' = effects h ++ l →
  task_calls h' = task_calls h + length (List.filter is_task_call l).
Proof.
  intros H. unfold task_calls. rewrite H, List.filter_app, length_app. reflexivity.
Qed.

Lemma task_calls_start (t : AsyncTask) (h : Hook) :
  task_calls (start t h) = S (task_calls h).
Proof.
  rewrite (task_calls_app h (start t h) _ (effects_start t h)).
  destruct (staleTaskRef h), (staleAbortControllerRef h); simpl; lia.
Qed.

Lemma task_calls_abort (r : Run) (h : Hook) : task_calls (abort r h) = task_calls h.
Proof.
  unfold abort. destruct (tasks h !! task r) as [[]|]; try reflexivity.
  rewrite (task_calls_app _ _ _ (abort_effects r h)). simpl. lia.
Qed.

Lemma task_calls_settle (r : Run) (o : Outcome) (h : Hook) :
  task_calls (settle r o h) = task_calls h.
Proof.
  assert (Hpub : ∀ res, task_calls (rerender (updateResult r res h)) = task_calls h).
  { intros res. destruct (publish_cells r res h) as (_ & _ & Heff).
    rewrite (task_calls_app _ _ _ Heff). simpl. lia. }
  destruct o as [v|e]; simpl.
  - unfold onfulfilled. destruct (tasks h !! task r) as [[]|]; auto.
  - unfold onrejected. destruct e; auto.
Qed.

Lemma changed_renders_cons (e : Event) (evs : list Event) :
  changed_renders (e :: evs) = (if is_start e then 1 else 0) + changed_renders evs.
Proof. unfold changed_renders. simpl. destruct (is_start e); reflexivity. Qed.

Lemma task_calls_step (e : Event) (h : Hook) :
  task_calls (step h e) = task_calls h + (if is_start e then 1 else 0) ∧
  length (runs (step h e)) = length (runs h) + (if is_start e then 1 else 0).
Proof.
  by_event e; unfold is_start.
  - destruct changed; [|lia].
    rewrite task_calls_start, runs_start, length_app. simpl. lia.
  - destruct (runs h !! i) as [r|]; [|lia].
    rewrite task_calls_abort. destruct (abort_frame r h) as (-> & _). lia.
  - destruct (runs h !! i) as [r|]; [|lia].
    rewrite task_calls_settle. destruct (settle_frame r o h) as (-> & _). lia.
Qed.

Lemma task_calls_exec (evs : list Event) (h : Hook) :
  task_calls (exec evs h) = task_calls h + changed_renders evs ∧
  length (runs (exec evs h)) = length (runs h) + changed_renders evs.
Proof.
  by_history evs h; [unfold changed_renders; simpl; lia|].
  destruct (IH (step h e)) as [-> ->]. rewrite changed_renders_cons.
  destruct (task_calls_step e h) as [-> ->]. lia.
Qed.

(** X1. The task function is called once when the hook mounts and once more
    for every render whose dependencies changed, and by nothing else: a
    render with unchanged dependencies, an abort request or a settlement
    never calls it.  Each call belongs to a run of its own. *)
Theorem task_called_per_dependency_change (t0 : AsyncTask) (evs : list Event) :
  task_calls (exec evs (mount t0)) = S (changed_renders evs) ∧
  length (runs (exec evs (mount t0))) = S (changed_renders evs).
Proof.
  destruct (task_calls_exec evs (mount t0)) as [-> ->]. split; reflexivity.
Qed.

(** ** The running task *)

(** X2. After any history, a task whose entry in [tasks] is ["running"] is
    the task of the run created last, the one [staleTaskRef] holds; so no two
    tasks are running at once. *)
Theorem running_task_is_latest
    (t0 : AsyncTask) (evs : list Event) (t : AsyncTask) :
  tasks (exec evs (mount t0)) !! t = Some running →
  staleTaskRef (exec evs (mount t0)) = Some t ∧
  (∃ r, latest (exec evs (mount t0)) r ∧ task r = t) ∧
  (∀ t', tasks (exec evs (mount t0)) !! t' = Some running → t' = t).
Proof.
  intros Hrun. pose proof (consistent_now t0 evs) as Hc.
  pose proof (cons_owner _ Hc _ Hrun) as Hst.
  split; [exact Hst|split].
  - destruct (cons_latest _ Hc) as (r & Hl & Hst' & _).
    exists r. split; [exact Hl|congruence].
  - intros t' Hrun'. apply (cons_owner _ Hc) in Hrun'. congruence.
Qed.

Lemma running_task_is_latest_witness :
  staleTaskRef (exec [Render 2 true; Settle 0 (fulfils 7)] (mount 1)) = Some 2.
Proof.
  apply (running_task_is_latest 1 [Render 2 true; Settle 0 (fulfils 7)] 2).
  vm_compute. reflexivity.
Defined.

(** The running result is only ever written by the hook body. *)
Lemma running_result_step (e : Event) (h : Hook) (r : Run) :
  (∀ r, resultRef h = Running r →
        latest h r ∧ (tasks h !! task r = Some running ∨ tasks h !! task r = None)) →
  resultRef (step h e) = Running r →
  latest (step h e) r ∧
  (tasks (step h e) !! task r = Some running ∨ tasks (step h e) !! task r = None).
Proof.
  intros Hinv. by_event e.
  - destruct changed; [|apply Hinv].
    rewrite resultRef_start. intros [= <-]. split.
    + unfold latest. rewrite runs_start. apply last_snoc.
    + rewrite tasks_start. simpl. destruct (staleTaskRef h) as [stale|].
      * destruct (decide (stale = t)) as [->|Hne].
        -- right. apply lookup_delete_eq.
        -- left. rewrite lookup_delete_ne by done. apply lookup_insert_eq.
      * left. apply lookup_insert_eq.
  - destruct (runs h !! i) as [r'|]; [|apply Hinv].
    destruct (abort_publishes_once r' h) as [->|(Hres & _)]; [apply Hinv|].
    intros H. rewrite H in Hres. simpl in Hres. congruence.
  - destruct (runs h !! i) as [r'|]; [|apply Hinv].
    destruct (settle_publishes_once r' o h) as [->|(Hres & _)]; [apply Hinv|].
    intros H. rewrite H in Hres. simpl in Hres. congruence.
Qed.

(** X6. Whenever the result of the hook is running, the [abort] it carries
    is the closure of the run created last, and the task of that run is
    either registered as ["running"] or (after a restart with the same task
    function) not registered at all: it is never ["aborted"], ["fulfilled"]
    or ["rejected"]. *)
Theorem running_result_is_latest (t0 : AsyncTask) (evs : list Event) (r : Run) :
  resultRef (exec evs (mount t0)) = Running r →
  latest (exec evs (mount t0)) r ∧
  (tasks (exec evs (mount t0)) !! task r = Some running ∨
   tasks (exec evs (mount t0)) !! task r = None).
Proof.
  revert r. induction evs as [|e evs IH] using rev_ind; intros r.
  - change (exec [] (mount t0)) with (start t0 (initial t0)).
    rewrite resultRef_start. intros [= <-]. split; [reflexivity|].
    left. rewrite tasks_start. simpl. apply lookup_insert_eq.
  - rewrite exec_snoc. apply running_result_step, IH.
Qed.

Lemma running_result_is_latest_witness :
  latest (exec [Abort 0; Render 2 true; Settle 0 (fulfils 7)] (mount 1))
         (new_run 2 (mount 1)).
Proof.
  apply (running_result_is_latest 1 [Abort 0; Render 2 true; Settle 0 (fulfils 7)]).
  vm_compute. reflexivity.
Defined.

(** ** Runs that no longer count *)

Lemma step_dead_kept (k : AsyncTask) (h : Hook) (e : Event) :
  writes k h e = false → dead k h → dead k (step h e).
Proof.
  intros Hw Hk.
  assert (Hins : ∀ r s, task r ≠ k →
            <[task r := s]> (tasks h) !! k = None ∨
            <[task r := s]> (tasks h) !! k = Some aborted).
  { intros r s Hne. rewrite lookup_insert_ne by done. exact Hk. }
  assert (Hlive : ∀ r s, tasks h !! task r = Some s → s ≠ aborted → task r ≠ k).
  { intros r s Hr Hs Heq. rewrite Heq in Hr. destruct Hk; congruence. }
  by_event e.
  - destruct changed; [|exact Hk]. simpl in Hw. apply Nat.eqb_neq in Hw.
    unfold dead. rewrite tasks_start. destruct (staleTaskRef h) as [stale|].
    + destruct (decide (stale = k)) as [->|Hst].
      * left. apply lookup_delete_eq.
      * rewrite lookup_delete_ne, lookup_insert_ne by done. exact Hk.
    + rewrite lookup_insert_ne by done. exact Hk.
  - destruct (runs h !! i) as [r|]; [|exact Hk]. unfold abort.
    destruct (tasks h !! task r) as [[]|] eqn:E; try exact Hk.
    unfold dead. simpl. apply Hins. eapply Hlive; [exact E|discriminate].
  - simpl in Hw. destruct (runs h !! i) as [r|]; [|exact Hk].
    destruct o as [v|err]; simpl.
    + unfold onfulfilled. destruct (tasks h !! task r) as [[]|] eqn:E;
        try exact Hk; unfold dead; simpl; apply Hins;
        (eapply Hlive; [exact E|discriminate]).
    + unfold onrejected. destruct err; try exact Hk.
      unfold dead. simpl. apply Hins. apply Nat.eqb_neq, Hw.
Qed.

Lemma exec_dead_kept (k : AsyncTask) (evs : list Event) (h : Hook) :
  untouched k h evs = true → dead k h → dead k (exec evs h).
Proof.
  by_history evs h; intros Hu Hk; [exact Hk|].
  simpl in Hu. apply andb_prop in Hu as [He Hevs]. apply negb_true_iff in He.
  auto using step_dead_kept.
Qed.

Lemma dead_gives_up (r : Run) (h : Hook) :
  dead (task r) h →
  (∀ value, onfulfilled r value h = h) ∧
  (∃ reason, tick r h = reject reason) ∧
  abort r h = h.
Proof.
  unfold dead, onfulfilled, tick, abort.
  intros [-> | ->]; (split; [reflexivity|split; [eexists; reflexivity|reflexivity]]).
Qed.

(** X3. Once an abort request has taken effect for a run, nothing that run
    does counts any more: its [tick] rejects, a fulfilment of its promise
    leaves the hook as it is, and so does a second abort request.  This
    holds right after the request and after any later events, as long as
    none of them runs the hook body with that task again or is a rejection
    of that task with a reason of its own. *)
Theorem aborted_run_gives_up
    (r : Run) (h : Hook) (evs : list Event) (value : Z) :
  tasks h !! task r = Some running →
  untouched (task r) (abort r h) evs = true →
  onfulfilled r value (exec evs (abort r h)) = exec evs (abort r h) ∧
  (∃ reason, tick r (exec evs (abort r h)) = reject reason) ∧
  abort r (exec evs (abort r h)) = exec evs (abort r h).
Proof.
  intros Hrun Hu.
  assert (Hdead : dead (task r) (abort r h)).
  { right. rewrite (abort_running _ _ Hrun). simpl. apply lookup_insert_eq. }
  destruct (dead_gives_up r _ (exec_dead_kept _ _ _ Hu Hdead)) as (Hf & Ht & Ha).
  auto.
Qed.

Lemma aborted_run_gives_up_witness :
  onfulfilled (new_run 1 (initial 1)) 7
    (exec [Render 2 true; Settle 1 (rejects (thrown 3))]
          (abort (new_run 1 (initial 1)) (mount 1)))
  = exec [Render 2 true; Settle 1 (rejects (thrown 3))]
         (abort (new_run 1 (initial 1)) (mount 1)).
Proof.
  assert (Hrun : tasks (mount 1) !! task (new_run 1 (initial 1)) = Some running)
    by (vm_compute; reflexivity).
  assert (Hu : untouched (task (new_run 1 (initial 1)))
                 (abort (new_run 1 (initial 1)) (mount 1))
                 [Render 2 true; Settle 1 (rejects (thrown 3))] = true)
    by (vm_compute; reflexivity).
  exact (proj1 (aborted_run_gives_up (new_run 1 (initial 1)) (mount 1)
                  [Render 2 true; Settle 1 (rejects (thrown 3))] 7 Hrun Hu)).
Defined.

(** X4. Once the hook body has run again, a fulfilment of the run it
    superseded leaves the hook as it is: the result of the new run is not
    replaced and [rerender] is not called.  This holds right after the
    restart and after any later events, as long as none of them runs the
    hook body with the superseded task again or is a rejection of that task
    with a reason of its own. *)
Theorem superseded_fulfilment_dropped
    (h : Hook) (r : Run) (t : AsyncTask) (evs : list Event) (value : Z) :
  staleTaskRef h = Some (task r) →
  untouched (task r) (start t h) evs = true →
  onfulfilled r value (exec evs (start t h)) = exec evs (start t h) ∧
  resultRef (onfulfilled r value (exec evs (start t h)))
    = resultRef (exec evs (start t h)) ∧
  notifications (onfulfilled r value (exec evs (start t h)))
    = notifications (exec evs (start t h)).
Proof.
  intros Hs Hu.
  assert (Hdead : dead (task r) (start t h)) by (left; apply start_evicts, Hs).
  destruct (dead_gives_up r _ (exec_dead_kept _ _ _ Hu Hdead)) as (Hf & _).
  rewrite Hf. auto.
Qed.

Lemma superseded_fulfilment_dropped_witness :
  onfulfilled (new_run 1 (initial 1)) 7
    (exec [Abort 0; Settle 1 (fulfils 9)] (start 2 (mount 1)))
  = exec [Abort 0; Settle 1 (fulfils 9)] (start 2 (mount 1)).
Proof.
  assert (Hs : staleTaskRef (mount 1) = Some (task (new_run 1 (initial 1))))
    by (vm_compute; reflexivity).
  assert (Hu : untouched (task (new_run 1 (initial 1))) (start 2 (mount 1))
                 [Abort 0; Settle 1 (fulfils 9)] = true)
    by (vm_compute; reflexivity).
  exact (proj1 (superseded_fulfilment_dropped (mount 1) (new_run 1 (initial 1)) 2
                  [Abort 0; Settle 1 (fulfils 9)] 7 Hs Hu)).
Defined.

Lemma settle_not_running (r : Run) (o : Outcome) (h : Hook) :
  genuine o = true → tasks (settle r o h) !! task r ≠ Some running.
Proof.
  destruct o as [v|e]; simpl.
  - intros _. unfold onfulfilled.
    destruct (tasks h !! task r) as [[]|] eqn:E; simpl;
      rewrite ?lookup_insert_eq; congruence.
  - unfold onrejected. destruct e; try discriminate. intros _. simpl.
    rewrite lookup_insert_eq. discriminate.
Qed.

(** X5. After the promise of a run has fulfilled, or rejected with a reason
    of the task's own, the [abort] closure of that run changes nothing: the
    task's entry is not ["running"], whether the settlement was published or
    dropped.  This stays so until the hook body runs with that task again. *)
Theorem abort_after_settlement_inert
    (r : Run) (o : Outcome) (h : Hook) (evs : list Event) :
  genuine o = true →
  forallb (λ e, negb (restarts (task r) e)) evs = true →
  abort r (exec evs (settle r o h)) = exec evs (settle r o h).
Proof.
  intros Ho Hevs. apply abort_not_running. intros Hrun.
  apply exec_running_before in Hrun; [|exact Hevs].
  exact (settle_not_running r o h Ho Hrun).
Qed.

Lemma abort_after_settlement_inert_witness :
  abort (new_run 1 (initial 1))
    (exec [Render 2 true] (settle (new_run 1 (initial 1)) (fulfils 7) (mount 1)))
  = exec [Render 2 true] (settle (new_run 1 (initial 1)) (fulfils 7) (mount 1)).
Proof.
  apply (abort_after_settlement_inert (new_run 1 (initial 1)) (fulfils 7)
           (mount 1) [Render 2 true]); vm_compute; reflexivity.
Defined.

(** ** Superseded runs and their signals *)

Lemma superseded_aborted_step (e : Event) (h : Hook) :
  consistent h →
  (∀ j r, runs h !! j = Some r → S j < length (runs h) →
          abortController r ∈ signals h) →
  ∀ j r, runs (step h e) !! j = Some r → S j < length (runs (step h e)) →
         abortController r ∈ signals (step h e).
Proof.
  intros Hc Hinv j rj.
  assert (Hkeep : runs (step h e) = runs h →
            runs (step h e) !! j = Some rj → S j < length (runs (step h e)) →
            abortController rj ∈ signals (step h e)).
  { intros ->. intros Hr Hlt. apply signals_step_mono. eauto. }
  destruct e as [t changed|i|i o].
  - rewrite step_render in *. destruct changed; [|auto].
    destruct (cons_latest _ Hc) as (prev & Hlast & _ & Hsc).
    pose proof (latest_controller h prev (cons_numbered _ Hc) Hlast) as Hlen.
    unfold latest in Hlast. rewrite last_lookup in Hlast.
    rewrite runs_start, signals_start, Hsc, length_app. simpl.
    intros [[_ H] | [-> _]]%lookup_snoc_Some Hlt; [|lia].
    destruct (decide (S j < length (runs h))) as [Hin|Hlastrun].
    + apply elem_of_union_r. eauto.
    + assert (j = pred (length (runs h))) as -> by lia.
      rewrite Hlast in H. injection H as <-. set_solver.
  - apply Hkeep. rewrite step_abort.
    destruct (runs h !! i) as [r'|]; [apply abort_frame|reflexivity].
  - apply Hkeep. rewrite step_settle.
    destruct (runs h !! i) as [r'|]; [apply settle_frame|reflexivity].
Qed.

Lemma superseded_aborted_exec (evs : list Event) (h : Hook) :
  consistent h →
  (∀ i r, runs h !! i = Some r → S i < length (runs h) →
          abortController r ∈ signals h) →
  ∀ i r, runs (exec evs h) !! i = Some r → S i < length (runs (exec evs h)) →
         abortController r ∈ signals (exec evs h).
Proof.
  by_history evs h; intros Hc Hinv; [exact Hinv|].
  apply IH; [apply consistent_step, Hc|apply superseded_aborted_step; assumption].
Qed.

(** X7. After any history, every run but the one created last has had its
    [AbortController] aborted: a task that was superseded can always see it
    on its [signal], whether or not it ever calls [tick]. *)
Theorem superseded_signals_aborted
    (t0 : AsyncTask) (evs : list Event) (i : nat) (r : Run) :
  runs (exec evs (mount t0)) !! i = Some r →
  S i < length (runs (exec evs (mount t0))) →
  abortController r ∈ signals (exec evs (mount t0)).
Proof.
  apply superseded_aborted_exec; [apply consistent_mount|].
  intros j r'. rewrite mount_start, runs_start. simpl. lia.
Qed.

Lemma superseded_signals_aborted_witness :
  abortController (new_run 1 (initial 1))
  ∈ signals (exec [Render 2 true; Render 3 true] (mount 1)).
Proof.
  apply (superseded_signals_aborted 1 [Render 2 true; Render 3 true] 0).
  - vm_compute. reflexivity.
  - vm_compute. lia.
Defined.

(** ** Restart with another task function *)

(** X8. When the hook body runs with a task function other than the one of
    the previous run, the new run is registered as ["running"]: its [tick]
    resolves, a fulfilment of its promise is published with one [rerender],
    and the [abort] of the result it published yields the aborted result
    and aborts the new run's controller. *)
Theorem restart_with_other_task (h : Hook) (t : AsyncTask) (value : Z) :
  staleTaskRef h ≠ Some t →
  let r := new_run t h in
  tasks (start t h) !! t = Some running ∧
  resultRef (start t h) = Running r ∧
  tick r (start t h) = resolve r ∧
  (resultRef (onfulfilled r value (start t h)) = Fulfilled value ∧
   notifications (onfulfilled r value (start t h)) = S (notifications (start t h))) ∧
  (resultRef (abort r (start t h)) = Aborted ∧
   abortController r ∈ signals (abort r (start t h)) ∧
   notifications (abort r (start t h)) = S (notifications (start t h))).
Proof.
  intros Hne r.
  assert (Hrun : tasks (start t h) !! task r = Some running).
  { rewrite tasks_start. simpl. destruct (staleTaskRef h) as [stale|].
    - rewrite lookup_delete_ne by congruence. apply lookup_insert_eq.
    - apply lookup_insert_eq. }
  split; [exact Hrun|]. split; [apply resultRef_start|].
  split; [unfold tick; rewrite Hrun; reflexivity|]. split.
  - unfold onfulfilled. rewrite Hrun.
    destruct (publish_cells r (Fulfilled value) (start t h)) as (-> & _).
    split; [reflexivity|]. apply publish_counts. discriminate.
  - split; [|split].
    + rewrite (abort_running _ _ Hrun). reflexivity.
    + rewrite signals_abort, Hrun. set_solver.
    + apply abort_counts, Hrun.
Qed.

Lemma restart_with_other_task_witness :
  tick (new_run 2 (mount 1)) (start 2 (mount 1)) = resolve (new_run 2 (mount 1)).
Proof.
  assert (Hne : staleTaskRef (mount 1) ≠ Some 2).
  { intros H. vm_compute in H. discriminate H. }
  exact (proj1 (proj2 (proj2 (restart_with_other_task (mount 1) 2 7 Hne)))).
Defined.

(** ** One entry in [tasks] *)

Lemma single_entry_step (e : Event) (h : Hook) :
  foreign_reject h e = false →
  (∀ k, is_Some (tasks h !! k) → staleTaskRef h = Some k) →
  ∀ k, is_Some (tasks (step h e) !! k) → staleTaskRef (step h e) = Some k.
Proof.
  intros Hf Hinv k.
  assert (Hins : ∀ r s, staleTaskRef h = Some (task r) →
            is_Some (<[task r := s]> (tasks h) !! k) → staleTaskRef h = Some k).
  { intros r s Hr. destruct (decide (task r = k)) as [<-|Hne]; [auto|].
    rewrite lookup_insert_ne by done. apply Hinv. }
  by_event e.
  - destruct changed; [|apply Hinv].
    rewrite tasks_start. destruct (stale_start t h) as [-> _].
    destruct (decide (t = k)) as [->|Hne]; [reflexivity|].
    destruct (staleTaskRef h) as [stale|] eqn:Hst.
    + destruct (decide (stale = k)) as [->|Hsk].
      * rewrite lookup_delete_eq. intros [? ?]. discriminate.
      * rewrite lookup_delete_ne, lookup_insert_ne by done.
        intros Hk%Hinv. congruence.
    + rewrite lookup_insert_ne by done. intros Hk%Hinv. discriminate.
  - destruct (runs h !! i) as [r|]; [|apply Hinv].
    destruct (abort_frame r h) as (_ & -> & _). unfold abort.
    destruct (tasks h !! task r) as [[]|] eqn:E; try apply Hinv.
    simpl. apply Hins, Hinv. rewrite E. eauto.
  - simpl in Hf. destruct (runs h !! i) as [r|]; [|apply Hinv].
    destruct (settle_frame r o h) as (_ & -> & _).
    destruct o as [v|err]; simpl.
    + unfold onfulfilled. destruct (tasks h !! task r) as [[]|] eqn:E;
        try apply Hinv; simpl; apply Hins, Hinv; rewrite E; eauto.
    + unfold onrejected. destruct err; try apply Hinv.
      simpl. apply Hins. destruct (staleTaskRef h) as [stale|]; [|discriminate].
      apply negb_false_iff, Nat.eqb_eq in Hf. congruence.
Qed.

Lemma single_entry_exec (evs : list Event) (h : Hook) :
  owner_rejects_only h evs = true →
  (∀ k, is_Some (tasks h !! k) → staleTaskRef h = Some k) →
  ∀ k, is_Some (tasks (exec evs h) !! k) → staleTaskRef (exec evs h) = Some k.
Proof.
  by_history evs h; intros Ho Hinv; [exact Hinv|].
  simpl in Ho. apply andb_prop in Ho as [He Hevs]. apply negb_true_iff in He.
  apply IH; [exact Hevs|apply single_entry_step; assumption].
Qed.

(** X9. As long as no run rejects, with a reason of the task's own, while
    its task is not the one of the latest run, [tasks] holds at most one
    entry, and that entry is the one of the task in [staleTaskRef]. *)
Theorem single_entry_without_stale_rejection (t0 : AsyncTask) (evs : list Event) :
  owner_rejects_only (mount t0) evs = true →
  (∀ k, is_Some (tasks (exec evs (mount t0)) !! k) →
        staleTaskRef (exec evs (mount t0)) = Some k) ∧
  size (tasks (exec evs (mount t0))) ≤ 1.
Proof.
  intros Ho.
  assert (Hkeys : ∀ k, is_Some (tasks (exec evs (mount t0)) !! k) →
                       staleTaskRef (exec evs (mount t0)) = Some k).
  { apply single_entry_exec; [exact Ho|].
    intros k. rewrite mount_start, tasks_start. simpl.
    destruct (decide (t0 = k)) as [->|Hne]; [reflexivity|].
    rewrite lookup_insert_ne, lookup_empty by done. intros [? ?]. discriminate. }
  split; [exact Hkeys|].
  destruct (staleTaskRef (exec evs (mount t0))) as [stale|] eqn:Hst.
  - rewrite <- size_dom.
    transitivity (size ({[stale]} : gset nat)); [|rewrite size_singleton; lia].
    apply subseteq_size. intros k Hk%elem_of_dom.
    apply Hkeys in Hk. apply elem_of_singleton. congruence.
  - rewrite <- size_dom.
    assert (dom (tasks (exec evs (mount t0))) = (∅ : gset nat)) as ->.
    { apply set_eq. intros k. rewrite elem_of_dom. split; [|set_solver].
      intros Hk%Hkeys. discriminate. }
    rewrite size_empty. lia.
Qed.

Lemma single_entry_without_stale_rejection_witness :
  size (tasks (exec [Settle 0 (rejects (thrown 5)); Render 2 true;
                     Settle 0 (fulfils 7); Settle 1 (rejects (thrown 3))]
                    (mount 1))) ≤ 1.
Proof.
  apply (single_entry_without_stale_rejection 1
           [Settle 0 (rejects (thrown 5)); Render 2 true;
            Settle 0 (fulfils 7); Settle 1 (rejects (thrown 3))]).
  vm_compute. reflexivity.
Defined.

(** ** Between two dependency changes *)

Lemma step_publishes_once (e : Event) (h : Hook) :
  is_start e = false → publishes_once h (step h e).
Proof.
  by_event e; simpl.
  - intros ->. left. reflexivity.
  - intros _. destruct (runs h !! i) as [r|]; [|left; reflexivity].
    apply abort_publishes_once.
  - intros _. destruct (runs h !! i) as [r|]; [|left; reflexivity].
    apply settle_publishes_once.
Qed.

(** X10. Between two executions of the hook body the result returns to
    running by no event: while the result is still running, no abort request
    or settlement has changed anything in the hook, and once the result is
    aborted, fulfilled or rejected it is not running again before the
    dependencies change. *)
Theorem running_only_by_restart (evs : list Event) (h : Hook) :
  forallb (λ e, negb (is_start e)) evs = true →
  (∀ r, resultRef (exec evs h) = Running r → exec evs h = h) ∧
  (status (resultRef h) ≠ running → status (resultRef (exec evs h)) ≠ running).
Proof.
  induction evs as [|e evs IH] using rev_ind; intros Hall.
  - split; [reflexivity|auto].
  - rewrite forallb_app in Hall. apply andb_prop in Hall as [Hevs He].
    simpl in He. rewrite andb_true_r in He. apply negb_true_iff in He.
    destruct (IH Hevs) as [Hsame Hterm]. rewrite exec_snoc.
    destruct (step_publishes_once e (exec evs h) He) as [->|(Hres & _)].
    + split; assumption.
    + split; [|intros _; exact Hres].
      intros r Hr. rewrite Hr in Hres. simpl in Hres. congruence.
Qed.

Lemma running_only_by_restart_witness :
  status (resultRef (exec [Abort 0; Settle 0 (fulfils 7); Render 2 false]
                          (abort (new_run 1 (initial 1)) (mount 1)))) ≠ running.
Proof.
  assert (Hall : forallb (λ e, negb (is_start e))
                   [Abort 0; Settle 0 (fulfils 7); Render 2 false] = true)
    by reflexivity.
  apply (proj2 (running_only_by_restart
                  [Abort 0; Settle 0 (fulfils 7); Render 2 false]
                  (abort (new_run 1 (initial 1)) (mount 1)) Hall)).
  vm_compute. discriminate.
Defined.
